(** * Compile-time method detection of mlpack's [sfinae_utility.hpp]

    The header is a template metaprogram: what it computes is computed by the
    C++ compiler while it instantiates templates.  This development embeds
    that computation.  A class is the list of its member declarations, a
    method form is an alias template producing a pointer-to-member-function
    type, and every construct of the header (the eight specialisations of
    [MethodFormDetecter], [True], [EnableIfCompilable], and the structs
    generated by the macros [HAS_MEM_FUNC] and [HAS_METHOD_FORM]) becomes a
    function with the same name.

    The language rules the header relies on are written out as functions too:
    member lookup, the address of an overloaded member ([over.over]),
    template argument deduction from an overload set ([temp.deduct.call]/6),
    substitution failure in the immediate context ([temp.deduct]/8) and
    overload resolution between the two [chk] candidates.

    Fragment covered: classes without base classes whose members are public
    non-template methods, static methods and data members; method forms
    [template<class C, class... Ts> using F = R (C::* )(P1, .., Pk, Ts...) cv].
    Exception specifications are not part of a function type here.  Counts
    are natural numbers: the conversions between [size_t] and the [int]
    parameter of the alias [MFD] are exact for the counts that occur, and
    what is stated about a single count is stated for the counts 0 to 7.
    The address of a data member of reference type does not exist; results
    about [HAS_MEM_FUNC] are stated for signatures that are types. *)

From stdpp Require Import base decidable option list strings gmap.

(** ** Types *)

Inductive type : Type :=
  | t_void | t_bool | t_int | t_size_t | t_double
  | t_class (name : string)
  | t_const (t : type)
  | t_lref (t : type)
  | t_ptr (t : type).

#[global] Instance type_eq_dec : EqDecision type.
Proof. solve_decision. Defined.

Record function_type : Type := FunctionType {
  return_type : type;
  parameter_types : list type
}.

#[global] Instance function_type_eq_dec : EqDecision function_type.
Proof. solve_decision. Defined.

(** The types an expression [&C::m] can have. *)
Inductive pointer_type : Type :=
  | ptr_to_member_function (cls : string) (f : function_type) (is_const : bool)
  | ptr_to_function (f : function_type)
  | ptr_to_data_member (cls : string) (t : type).

#[global] Instance pointer_type_eq_dec : EqDecision pointer_type.
Proof. solve_decision. Defined.

(** ** Classes *)

Inductive member_declaration : Type :=
  | method (f : function_type) (is_const : bool)
  | static_method (f : function_type)
  | data_member (t : type).

Record member : Type := Member {
  member_name : string;
  member_decl : member_declaration
}.

Record class_type : Type := ClassType {
  class_name : string;
  class_members : list member
}.

(** The type of [&C::m] for one declaration [m] of class [C].  For a data
    member of reference type there is no such expression and no such type:
    the value is then a type no signature and no form can be. *)
Definition address_type (C : class_type) (d : member_declaration) : pointer_type :=
  match d with
  | method f q => ptr_to_member_function (class_name C) f q
  | static_method f => ptr_to_function f
  | data_member t => ptr_to_data_member (class_name C) t
  end.

(** Class member lookup of a name: every declaration of that name. *)
Definition lookup_member (C : class_type) (name : string) : list member_declaration :=
  member_decl <$> filter (λ m, member_name m = name) (class_members C).


(** ** Method forms *)

(** [template<class C, class... Ts>
     using F = form_return (C::* )(form_prefix..., Ts...) [const]]. *)
Record method_form : Type := MethodFormAlias {
  form_return : type;
  form_prefix : list type;
  form_const : bool
}.

(** The specialisation [F<C, Ts...>]. *)
Definition instantiate_form (F : method_form) (C : class_type) (Ts : list type)
    : pointer_type :=
  ptr_to_member_function (class_name C)
    (FunctionType (form_return F) (form_prefix F ++ Ts)) (form_const F).

(** ** Outcomes of a compile-time construct *)

Inductive compile (A : Type) : Type :=
  | well_formed (a : A)
  | substitution_failure
  | hard_error.
Arguments well_formed {A} a.
Arguments substitution_failure {A}.
Arguments hard_error {A}.

#[global] Instance compile_ret : MRet compile := @well_formed.
#[global] Instance compile_bind : MBind compile := λ A B k m,
  match m with
  | well_formed a => k a
  | substitution_failure => substitution_failure
  | hard_error => hard_error
  end.

Definition is_well_formed {A} (c : compile A) : bool :=
  match c with well_formed _ => true | _ => false end.

(** Where an ill-formed construct appears decides what it does: in the
    immediate context of a substitution it only removes the candidate. *)
Inductive context : Type := immediate_context | ordinary_context.

Definition ill_formed {A} (ctx : context) : compile A :=
  match ctx with
  | immediate_context => substitution_failure
  | ordinary_context => hard_error
  end.

(** [T()] needs [T] complete; a template that is declared but has no
    definition for the arguments names an incomplete type. *)
Definition value_initialize {A} (ctx : context) (T : option A) : compile A :=
  match T with
  | Some d => well_formed d
  | None => ill_formed ctx
  end.

(** [&C::name]: the overload set, as the types of its elements. *)
Definition address_of_member (ctx : context) (C : class_type) (name : string)
    : compile (list pointer_type) :=
  match lookup_member C name with
  | [] => ill_formed ctx
  | ds => well_formed (address_type C <$> ds)
  end.

(** [over.over]: with a target type, the element of that very type is
    selected, and there has to be exactly one. *)
Definition address_of_overloaded (ctx : context) (target : pointer_type)
    (set : list pointer_type) : compile pointer_type :=
  match filter (λ A, A = target) set with
  | [A] => well_formed A
  | _ => ill_formed ctx
  end.

(** Qualification conversions ([conv.qual]) between the member types of two
    pointers to data members: at every level the target keeps the [const] of
    the source, and where it adds one, every level above is [const] too. *)
Definition top_const (t : type) : bool :=
  match t with t_const _ => true | _ => false end.

Definition remove_const (t : type) : type :=
  match t with t_const u => u | _ => t end.

Fixpoint qualification_conversion (outer_const : bool) (T1 T2 : type) : bool :=
  implb (top_const T1) (top_const T2) &&
  (eqb (top_const T1) (top_const T2) || outer_const) &&
  match remove_const T1, remove_const T2 with
  | t_ptr P1, t_ptr P2 => qualification_conversion (outer_const && top_const T2) P1 P2
  | U1, U2 => bool_decide (U1 = U2)
  end.

(** [temp.arg.nontype]: the conversions applied to a template argument for
    a parameter of pointer type.  To a pointer to data member qualification
    conversions apply; to a pointer to (member) function none does. *)
Definition template_argument_converts (A U : pointer_type) : bool :=
  match A, U with
  | ptr_to_data_member cls1 t1, ptr_to_data_member cls2 t2 =>
      bool_decide (cls1 = cls2) && qualification_conversion true t1 t2
  | _, _ => bool_decide (A = U)
  end.

(** The template argument [&C::name] for a parameter of type [U]: exactly
    one element of the overload set has to convert to [U]. *)
Definition converted_template_argument (ctx : context) (U : pointer_type)
    (set : list pointer_type) : compile pointer_type :=
  match filter (λ A, template_argument_converts A U = true) set with
  | [_] => well_formed U
  | _ => ill_formed ctx
  end.

(** A signature that is a type: there is no pointer to a member of
    reference type or of type [void]. *)
Definition valid_signature (sig : pointer_type) : Prop :=
  match sig with
  | ptr_to_data_member _ t =>
      match remove_const t with t_lref _ | t_void => False | _ => True end
  | _ => True
  end.


(** Removes the prefix [ps] from [l], when [l] starts with it. *)
Fixpoint strip_prefix (ps l : list type) : option (list type) :=
  match ps, l with
  | [], _ => Some l
  | p :: ps', a :: l' => if decide (p = a) then strip_prefix ps' l' else None
  | _ :: _, [] => None
  end.

(** Deduction of [T1 .. TN] from [P = F<C, T1, .., TN>] and an argument of
    type [A]: the fixed parts have to be identical, the tail is deduced. *)
Definition deduce (F : method_form) (C : class_type) (N : nat) (A : pointer_type)
    : option (list type) :=
  match A with
  | ptr_to_member_function cls f q =>
      if decide (cls = class_name C ∧ return_type f = form_return F ∧ q = form_const F)
      then Ts ← strip_prefix (form_prefix F) (parameter_types f);
           if decide (length Ts = N) then Some Ts else None
      else None
  | _ => None
  end.

(** [temp.deduct.call]/6: deduction is tried with every element of the
    overload set and has to succeed for exactly one of them. *)
Definition deduce_from_overload_set (ctx : context) (F : method_form)
    (C : class_type) (N : nat) (set : list pointer_type) : compile (list type) :=
  match omap (deduce F C N) set with
  | [Ts] => well_formed Ts
  | _ => ill_formed ctx
  end.

(** ** Overload resolution between candidates of different rank *)

Inductive conversion_rank : Type := exact_match | conversion | ellipsis.

Definition rank_value (r : conversion_rank) : nat :=
  match r with exact_match => 0 | conversion => 1 | ellipsis => 2 end.

Record candidate : Type := Candidate {
  candidate_rank : conversion_rank;
  candidate_sizeof : nat   (* sizeof of the return type *)
}.

(** A function template whose substitution fails is no candidate. *)
Definition add_candidate {A} (c : compile A) (cs : compile (list A)) : compile (list A) :=
  match c with
  | well_formed a => l ← cs; mret (a :: l)
  | substitution_failure => cs
  | hard_error => hard_error
  end.

Definition best_rank (cs : list candidate) : nat :=
  foldr Nat.min 3 (rank_value ∘ candidate_rank <$> cs).

(** The call is well-formed when one candidate is better than all others. *)
Definition overload_resolution (cs : list candidate) : compile candidate :=
  match filter (λ c, rank_value (candidate_rank c) = best_rank cs) cs with
  | [c] => well_formed c
  | _ => hard_error
  end.

(** ** [namespace mlpack::sfinae] *)

Module sfinae.

(** An instantiated [MethodFormDetecter]: its single member is
    [template<class T1, .., class Tn> void operator()(MethodForm<Class, T1, .., Tn>)]. *)
Record detecter : Type := Detecter {
  detecter_class : class_type;
  detecter_form : method_form;
  operator_template_parameters : nat
}.

Definition MaxMFDAdditionalArgsCount : nat := 7.

(** The primary template is only declared; there is a definition for each
    of the counts 0 to 7 and for no other. *)
Definition MethodFormDetecter (Class : class_type) (MethodForm : method_form)
    (AdditionalArgsCount : nat) : option detecter :=
  match AdditionalArgsCount with
  | 0 => Some (Detecter Class MethodForm 0)
  | 1 => Some (Detecter Class MethodForm 1)
  | 2 => Some (Detecter Class MethodForm 2)
  | 3 => Some (Detecter Class MethodForm 3)
  | 4 => Some (Detecter Class MethodForm 4)
  | 5 => Some (Detecter Class MethodForm 5)
  | 6 => Some (Detecter Class MethodForm 6)
  | 7 => Some (Detecter Class MethodForm 7)
  | _ => None
  end.

(** The call [d(arg)] of the detecter's [operator()] with an overload set.
    Without template parameters the parameter type is the target of the
    address; with them they are deduced.  The call has type [void]. *)
Definition call_operator (ctx : context) (d : detecter) (arg : list pointer_type)
    : compile type :=
  match operator_template_parameters d with
  | 0 =>
      _ ← address_of_overloaded ctx
            (instantiate_form (detecter_form d) (detecter_class d) []) arg;
      mret t_void
  | n =>
      _ ← deduce_from_overload_set ctx (detecter_form d) (detecter_class d) n arg;
      mret t_void
  end.

(** [True<T>::value]; the name [True] is the proposition's here. *)
Definition True_ (T : type) : bool := true.

(** [std::enable_if<B, R>::type]. *)
Definition enable_if {R} (ctx : context) (B : bool) (ResultType : R) : compile R :=
  if B then well_formed ResultType else ill_formed ctx.

(** [EnableIfCompilable<T, ResultType>]: [ResultType] if [T] can be evaluated. *)
Definition EnableIfCompilable {R} (ctx : context) (T : compile type) (ResultType : R)
    : compile R :=
  t ← T; enable_if ctx (True_ t) ResultType.

End sfinae.

(** ** Instantiation with a record of the probed counts *)

(** A computation that instantiates templates: the counts [N] for which
    [WithNAdditionalArgs<N>] was instantiated, in order, and the outcome. *)
Definition Inst (A : Type) : Type := (list nat * compile A)%type.

#[global] Instance Inst_ret : MRet Inst := λ A a, ([], well_formed a).
#[global] Instance Inst_bind : MBind Inst := λ A B k m,
  match m.2 with
  | well_formed a => (m.1 ++ (k a).1, (k a).2)
  | substitution_failure => (m.1, substitution_failure)
  | hard_error => (m.1, hard_error)
  end.

Definition instantiated {A} (N : nat) (c : compile A) : Inst A := ([N], c).

(** The types [std::conditional] chooses between in the search.  A
    template-id names a specialisation and does not instantiate it. *)
Inductive search_type : Type :=
  | std_true_type
  | std_false_type
  | WithGreaterOrEqualNumberOfAdditionalArgs_id (N : nat).

(** [std::conditional<B, T, F>::type]. *)
Definition conditional {A} (B : bool) (T F : A) : A := if B then T else F.

(** ** The struct generated by [HAS_MEM_FUNC(FUNC, NAME)] *)

Module HAS_MEM_FUNC.
Section NAME.
Variable FUNC : string.
Variable T : class_type.
Variable sig : pointer_type.

Definition yes : nat := 1.   (* sizeof(char[1]) *)
Definition no : nat := 2.    (* sizeof(char[2]) *)

(** [type_check<U, &_1::FUNC>]: the template argument [&_1::FUNC] is
    converted to the type [U] of the parameter. *)
Definition type_check (ctx : context) (U : pointer_type) (_1 : class_type)
    : compile pointer_type :=
  set ← address_of_member ctx _1 FUNC;
  converted_template_argument ctx U set.

(** [chk<_1>(0)]: the null pointer conversion to [type_check<..>*] is
    better than the ellipsis. *)
Definition chk (_1 : class_type) : compile nat :=
  cs ← add_candidate
         (_ ← type_check immediate_context sig _1; mret (Candidate conversion yes))
         (add_candidate (mret (Candidate ellipsis no)) (mret []));
  c ← overload_resolution cs;
  mret (candidate_sizeof c).

Definition value : compile bool :=
  s ← chk T; mret (bool_decide (s = yes)).
End NAME.
End HAS_MEM_FUNC.

(** ** The struct generated by [HAS_METHOD_FORM(METHOD, NAME)] *)

Module HAS_METHOD_FORM.
Section NAME.
Variable METHOD : string.
Variable Class : class_type.
Variable MethodForm : method_form.

(** The aliases of the struct.  [MFD] takes its count as an [int]; the
    counts the search passes to it are 0 to 7. *)
Definition MF : method_form := MethodForm.
Definition MFD (C : class_type) (MF : method_form) (N : nat) : option sfinae.detecter :=
  sfinae.MethodFormDetecter C MF N.
Definition EnableIfComp {R} (ctx : context) (T : compile type) (ResultType : R)
    : compile R :=
  sfinae.EnableIfCompilable ctx T ResultType.
Definition MaxMFDAdditionalArgsCount : nat := sfinae.MaxMFDAdditionalArgsCount.

Definition yes : nat := 1.   (* sizeof(char[1]) *)
Definition no : nat := 2.    (* sizeof(char[2]) *)

(** [decltype(MFD<C, MF, N>()(&C::METHOD))]. *)
Definition probe (ctx : context) (N : nat) (C : class_type) : compile type :=
  d ← value_initialize ctx (MFD C MF N);
  arg ← address_of_member ctx C METHOD;
  sfinae.call_operator ctx d arg.

(** [chk<C>(0)] of [WithNAdditionalArgs<N>]: [chk(int)] is an exact match
    for the argument and better than [chk(...)], when its return type can
    be substituted. *)
Definition chk (N : nat) (C : class_type) : compile nat :=
  cs ← add_candidate
         (r ← EnableIfComp immediate_context (probe immediate_context N C) yes;
          mret (Candidate exact_match r))
         (add_candidate (mret (Candidate ellipsis no)) (mret []));
  c ← overload_resolution cs;
  mret (candidate_sizeof c).

(** [WithNAdditionalArgs<N>::value]. *)
Definition WithNAdditionalArgs (N : nat) : compile bool :=
  s ← chk N Class; mret (bool_decide (s = yes)).

(** [WithGreaterOrEqualNumberOfAdditionalArgs<N>::value].  [depth] bounds
    how deep instantiations of the struct may nest. *)
Fixpoint WithGreaterOrEqualNumberOfAdditionalArgs (depth N : nat) : Inst bool :=
  match depth with
  | 0 => ([], hard_error)
  | S depth' =>
      b ← instantiated N (WithNAdditionalArgs N);
      let type :=
        conditional b
          std_true_type
          (conditional (bool_decide (N < MaxMFDAdditionalArgsCount))
             (WithGreaterOrEqualNumberOfAdditionalArgs_id (N + 1))
             std_false_type) in
      match type with
      | std_true_type => mret true
      | std_false_type => mret false
      | WithGreaterOrEqualNumberOfAdditionalArgs_id N' =>
          WithGreaterOrEqualNumberOfAdditionalArgs depth' N'
      end
  end.

Definition value (depth : nat) : Inst bool :=
  WithGreaterOrEqualNumberOfAdditionalArgs depth 0.
End NAME.

(** A template argument is a type or a template. *)
Inductive template_argument : Type :=
  | type_argument (C : class_type)
  | template_template_argument (F : method_form).

(** The enclosing scope: the struct names the macro has declared, each with
    the method name it was generated for.  [NAME] is taken to be a name the
    struct can bear: none of the names of its own members and template
    parameters. *)
Definition expand (METHOD NAME : string) (scope : gmap string string)
    : compile (gmap string string) :=
  match scope !! NAME with
  | Some _ => hard_error
  | None => well_formed (<[NAME := METHOD]> scope)
  end.

(** [NAME<args...>::value] for the header
    [template<typename Class, template<typename...> class MethodForm>]. *)
Definition template_id_value (depth : nat) (scope : gmap string string)
    (NAME : string) (args : list template_argument) : Inst bool :=
  match scope !! NAME with
  | None => ([], hard_error)
  | Some METHOD =>
      match args with
      | [type_argument Class; template_template_argument MethodForm] =>
          value METHOD Class MethodForm depth
      | _ => ([], hard_error)
      end
  end.
End HAS_METHOD_FORM.

(** ** The fixed-arity check stated declaratively *)

(** A declaration is of the form [F] with [N] additional arguments when the
    type of its address is [F<C, T1, .., TN>] for some types [T1 .. TN]. *)
Definition of_form (F : method_form) (C : class_type) (N : nat)
    (d : member_declaration) : Prop :=
  ∃ Ts, length Ts = N ∧ address_type C d = instantiate_form F C Ts.

(** The call of a probe function with the single parameter
    [F<C, T1, .., TN>] and the argument [&C::METHOD] is well-formed: the name
    is found, and exactly one of its declarations is of the form. *)
Definition probe_call_well_formed (METHOD : string) (C : class_type)
    (F : method_form) (N : nat) : Prop :=
  ∃ ds1 d ds2,
    lookup_member C METHOD = ds1 ++ d :: ds2 ∧
    of_form F C N d ∧
    Forall (λ d', ¬ of_form F C N d') (ds1 ++ ds2).

(** ** Classes and forms used as examples *)

Definition const_ref (t : type) : type := t_lref (t_const t).
Definition arma_mat : type := t_class "arma::mat".
Definition arma_Row_size_t : type := t_class "arma::Row<size_t>".

(** The class of the header's documentation:
    [class A { public: void Train(const arma::mat&, const arma::Row<size_t>&, double); };] *)
Definition class_A : class_type :=
  ClassType "A"
    [Member "Train"
       (method (FunctionType t_void
                  [const_ref arma_mat; const_ref arma_Row_size_t; t_double]) false)].

(** [template<typename Class, typename...Ts> using TrainForm =
     void(Class::* )(const arma::mat&, const arma::Row<size_t>&, Ts...);] *)
Definition TrainForm : method_form :=
  MethodFormAlias t_void [const_ref arma_mat; const_ref arma_Row_size_t] false.

(** [class name { public: R f(int) cv; R f(int, int) cv; };] *)
Definition class_two_overloads (name f : string) (R : type) (cv : bool) : class_type :=
  ClassType name
    [Member f (method (FunctionType R [t_int]) cv);
     Member f (method (FunctionType R [t_int; t_int]) cv)].

(** [template<class C, class... Ts> using F = R (C::* )(Ts...) cv;] *)
Definition form_any_arguments (R : type) (cv : bool) : method_form :=
  MethodFormAlias R [] cv.

(** [class B { public: void f(int x 7); double g(int x 8); int h; };] *)
Definition class_B : class_type :=
  ClassType "B"
    [Member "f" (method (FunctionType t_void (replicate 7 t_int)) false);
     Member "g" (method (FunctionType t_double (replicate 8 t_int)) false);
     Member "h" (data_member t_int)].

(** [class D { public: void f(int); void f(double); };] *)
Definition class_D : class_type :=
  ClassType "D"
    [Member "f" (method (FunctionType t_void [t_int]) false);
     Member "f" (method (FunctionType t_void [t_double]) false)].

(** [class B] with its members declared in the opposite order. *)
Definition class_B_reversed : class_type :=
  ClassType "B" (reverse (class_members class_B)).

(** [class S { public: static void f(int); int x; };] *)
Definition class_S : class_type :=
  ClassType "S"
    [Member "f" (static_method (FunctionType t_void [t_int]));
     Member "x" (data_member t_int)].


(** * Properties *)

(** ** Lists with exactly one selected element *)

Lemma omap_singleton_split {A B} (f : A → option B) (l : list A) (y : B) :
  omap f l = [y] ↔
  ∃ l1 x l2, l = l1 ++ x :: l2 ∧ f x = Some y ∧ Forall (λ z, f z = None) (l1 ++ l2).
Proof.
  split.
  - revert y. induction l as [|a l IH]; intros y H; [discriminate|].
    cbn in H. destruct (f a) as [b|] eqn:Ha.
    + injection H as -> Hl. exists [], a, l. split_and!; [done..|].
      cbn. clear IH. induction l as [|c l IH]; [constructor|].
      cbn in Hl. destruct (f c) eqn:Hc; [discriminate|]. constructor; auto.
    + destruct (IH _ H) as (l1 & x & l2 & -> & Hx & Hall).
      exists (a :: l1), x, l2. split_and!; [done..|]. cbn. by constructor.
  - intros (l1 & x & l2 & -> & Hx & Hall).
    apply Forall_app in Hall as [H1 H2].
    assert (Hnil : ∀ l, Forall (λ z, f z = None) l → omap f l = []).
    { induction 1 as [|c l Hc _ IH]; [done|]. cbn. by rewrite Hc. }
    rewrite omap_app. cbn. by rewrite Hx, (Hnil _ H1), (Hnil _ H2).
Qed.

Lemma filter_singleton_split {A} (P : A → Prop) `{!∀ x, Decision (P x)}
    (l : list A) (x : A) :
  filter P l = [x] ↔
  ∃ l1 l2, l = l1 ++ x :: l2 ∧ P x ∧ Forall (λ z, ¬ P z) (l1 ++ l2).
Proof.
  split.
  - induction l as [|a l IH]; intros Hf; [discriminate|].
    rewrite filter_cons in Hf. destruct (decide (P a)) as [Ha|Ha].
    + injection Hf as -> Hl. exists [], l. split_and!; [done..|].
      cbn. apply Forall_forall. intros z Hz Pz.
      assert (z ∈ filter P l) as Hin by (apply list_elem_of_filter; done).
      rewrite Hl in Hin. by apply elem_of_nil in Hin.
    + destruct (IH Hf) as (l1 & l2 & -> & Hx & Hall).
      exists (a :: l1), l2. split_and!; [done..|]. cbn. by constructor.
  - intros (l1 & l2 & -> & Hx & Hall).
    apply Forall_app in Hall as [H1 H2].
    assert (Hnil : ∀ l, Forall (λ z, ¬ P z) l → filter P l = []).
    { induction 1 as [|c l Hc _ IH]; [done|]. rewrite filter_cons.
      by destruct (decide (P c)). }
    rewrite filter_app, filter_cons. destruct (decide (P x)); [|done].
    by rewrite (Hnil _ H1), (Hnil _ H2).
Qed.

Lemma filter_length_Permutation {A} (P : A → Prop) `{!∀ x, Decision (P x)}
    (l l' : list A) :
  l ≡ₚ l' → length (filter P l) = length (filter P l').
Proof. intros Hp. by rewrite Hp. Qed.

Lemma length_1_singleton {A} (l : list A) : length l = 1 ↔ ∃ x, l = [x].
Proof.
  split; [|by intros [x ->]].
  destruct l as [|x [|??]]; [done|eauto|done].
Qed.

(** ** Deduction is instantiation read backwards *)

Lemma strip_prefix_Some (ps l Ts : list type) :
  strip_prefix ps l = Some Ts ↔ l = ps ++ Ts.
Proof.
  revert l. induction ps as [|p ps IH]; intros l; cbn.
  - split; congruence.
  - destruct l as [|a l]; [split; discriminate|].
    destruct (decide (p = a)) as [->|Hne].
    + rewrite IH. split; congruence.
    + split; [discriminate|]. intros [= ]. congruence.
Qed.

Lemma deduce_Some (F : method_form) (C : class_type) (N : nat)
    (A : pointer_type) (Ts : list type) :
  deduce F C N A = Some Ts ↔ length Ts = N ∧ A = instantiate_form F C Ts.
Proof.
  unfold deduce, instantiate_form. destruct A as [cls [r ps] q| |]; cbn;
    [|split; [discriminate|intros [_ [=]]]..].
  destruct (decide _) as [(-> & -> & ->)|Hne].
  - destruct (strip_prefix _ ps) as [Ts'|] eqn:Hs; cbn.
    + apply strip_prefix_Some in Hs as ->.
      destruct (decide (length Ts' = N)) as [HN|HN].
      * split; [by intros [= ->]|]. intros [_ [= H]]. by simplify_list_eq.
      * split; [discriminate|]. intros [HN' [= H]]. by simplify_list_eq.
    + split; [discriminate|]. intros [_ [= H]].
      assert (strip_prefix (form_prefix F) ps = Some Ts) as Hs'
        by (by apply strip_prefix_Some).
      congruence.
  - split; [discriminate|]. intros [_ [= ]]. subst. by destruct Hne.
Qed.

Lemma deduce_None (F : method_form) (C : class_type) (N : nat)
    (d : member_declaration) :
  deduce F C N (address_type C d) = None ↔ ¬ of_form F C N d.
Proof.
  unfold of_form. split.
  - intros H (Ts & HN & HA).
    assert (deduce F C N (address_type C d) = Some Ts) by (by apply deduce_Some).
    congruence.
  - intros H. destruct (deduce _ _ _ _) as [Ts|] eqn:Hd; [|done].
    apply deduce_Some in Hd as [??]. destruct H; eauto.
Qed.

Lemma of_form_0 (F : method_form) (C : class_type) (d : member_declaration) :
  of_form F C 0 d ↔ address_type C d = instantiate_form F C [].
Proof.
  unfold of_form. split.
  - intros (Ts & HN & ->). by destruct Ts.
  - intros H. by exists [].
Qed.

Lemma omap_fmap_compose {A B D} (g : A → B) (f : B → option D) (l : list A) :
  omap f (g <$> l) = omap (f ∘ g) l.
Proof. induction l as [|a l IH]; [done|]. cbn. by rewrite IH. Qed.

(** ** The eight definitions of [MethodFormDetecter] *)

Lemma MethodFormDetecter_defined (C : class_type) (F : method_form) (N : nat) :
  N ≤ 7 → sfinae.MethodFormDetecter C F N = Some (sfinae.Detecter C F N).
Proof. intros H. do 8 (destruct N as [|N]; [done|]). lia. Qed.

Lemma MethodFormDetecter_undefined (C : class_type) (F : method_form) (N : nat) :
  7 < N → sfinae.MethodFormDetecter C F N = None.
Proof. intros H. do 8 (destruct N as [|N]; [lia|]). done. Qed.

(** ** The probe expression *)

Section probe.
Variable METHOD : string.
Variable C : class_type.
Variable F : method_form.

Lemma address_of_overloaded_iff (ctx : context) (ds : list member_declaration) :
  (∃ A, address_of_overloaded ctx (instantiate_form F C []) (address_type C <$> ds)
        = well_formed A) ↔
  ∃ ds1 d ds2, ds = ds1 ++ d :: ds2 ∧ of_form F C 0 d ∧
               Forall (λ d', ¬ of_form F C 0 d') (ds1 ++ ds2).
Proof.
  unfold address_of_overloaded. split.
  - intros [A HA].
    destruct (filter _ _) as [|A' [|??]] eqn:Hf; [by destruct ctx| |by destruct ctx].
    apply filter_singleton_split in Hf as (l1 & l2 & Hl & -> & Hall).
    apply fmap_app_inv in Hl as (ds1 & ds' & -> & Hd & ->).
    symmetry in Hd. apply fmap_cons_inv in Hd as (d & ds2 & Hd & -> & ->).
    exists ds1, d, ds2. split_and!; [done|by apply of_form_0|].
    rewrite <-fmap_app, Forall_fmap in Hall.
    eapply Forall_impl; [exact Hall|]. intros d' Hd' Hof. cbn in Hd'.
    by apply of_form_0 in Hof.
  - intros (ds1 & d & ds2 & -> & Hd & Hall).
    apply of_form_0 in Hd. exists (instantiate_form F C []).
    assert (filter (λ A, A = instantiate_form F C [])
              (address_type C <$> ds1 ++ d :: ds2) = [instantiate_form F C []])
      as ->; [|done].
    apply filter_singleton_split.
    exists (address_type C <$> ds1), (address_type C <$> ds2).
    rewrite fmap_app, fmap_cons, Hd. split_and!; [done..|].
    rewrite <-fmap_app, Forall_fmap. eapply Forall_impl; [exact Hall|].
    intros d' Hd' Heq. cbn in Heq. by apply of_form_0 in Heq.
Qed.

Lemma deduce_from_overload_set_iff (ctx : context) (N : nat)
    (ds : list member_declaration) :
  (∃ Ts, deduce_from_overload_set ctx F C N (address_type C <$> ds)
         = well_formed Ts) ↔
  ∃ ds1 d ds2, ds = ds1 ++ d :: ds2 ∧ of_form F C N d ∧
               Forall (λ d', ¬ of_form F C N d') (ds1 ++ ds2).
Proof.
  unfold deduce_from_overload_set. rewrite omap_fmap_compose. split.
  - intros [Ts HTs].
    destruct (omap _ _) as [|Ts' [|??]] eqn:Hf; [by destruct ctx| |by destruct ctx].
    apply omap_singleton_split in Hf as (ds1 & d & ds2 & -> & Hd & Hall).
    exists ds1, d, ds2. split_and!; [done| |].
    + cbn in Hd. apply deduce_Some in Hd as [??]. by exists Ts'.
    + eapply Forall_impl; [exact Hall|]. intros d' Hd'. by apply deduce_None.
  - intros (ds1 & d & ds2 & -> & (Ts & HN & Hd) & Hall). exists Ts.
    assert (omap (deduce F C N ∘ address_type C) (ds1 ++ d :: ds2) = [Ts])
      as ->; [|done].
    apply omap_singleton_split. exists ds1, d, ds2. split_and!; [done| |].
    + cbn. by apply deduce_Some.
    + eapply Forall_impl; [exact Hall|]. intros d' Hd'. by apply deduce_None.
Qed.

(** The call of the detecter's [operator()] is well-formed exactly when
    one declaration of the overload set is of the form. *)
Lemma call_operator_iff (ctx : context) (N : nat) (ds : list member_declaration) :
  sfinae.call_operator ctx (sfinae.Detecter C F N) (address_type C <$> ds)
    = well_formed t_void ↔
  ∃ ds1 d ds2, ds = ds1 ++ d :: ds2 ∧ of_form F C N d ∧
               Forall (λ d', ¬ of_form F C N d') (ds1 ++ ds2).
Proof.
  unfold sfinae.call_operator. cbn. destruct N as [|N].
  - rewrite <-(address_of_overloaded_iff ctx). split.
    + destruct (address_of_overloaded _ _ _) as [A| |]; [eauto|done..].
    + by intros [A ->].
  - rewrite <-(deduce_from_overload_set_iff ctx). split.
    + destruct (deduce_from_overload_set _ _ _ _ _) as [A| |]; [eauto|done..].
    + by intros [A ->].
Qed.

Lemma call_operator_cases (ctx : context) (d : sfinae.detecter)
    (arg : list pointer_type) :
  sfinae.call_operator ctx d arg = well_formed t_void ∨
  sfinae.call_operator ctx d arg = ill_formed ctx.
Proof.
  unfold sfinae.call_operator, address_of_overloaded, deduce_from_overload_set.
  destruct (sfinae.operator_template_parameters d).
  - destruct (filter _ _) as [|? [|??]]; cbn; auto; destruct ctx; auto.
  - destruct (omap _ _) as [|? [|??]]; cbn; auto; destruct ctx; auto.
Qed.

(** The probe either has type [void] or is ill-formed in its context. *)
Lemma probe_cases (ctx : context) (N : nat) :
  HAS_METHOD_FORM.probe METHOD F ctx N C = well_formed t_void ∨
  HAS_METHOD_FORM.probe METHOD F ctx N C = ill_formed ctx.
Proof.
  unfold HAS_METHOD_FORM.probe, HAS_METHOD_FORM.MFD, address_of_member.
  destruct (sfinae.MethodFormDetecter _ _ _) as [d|]; cbn; [|destruct ctx; auto].
  destruct (lookup_member C METHOD) as [|d0 ds]; cbn; [destruct ctx; auto|].
  apply call_operator_cases.
Qed.

Lemma probe_well_formed_iff (ctx : context) (N : nat) :
  HAS_METHOD_FORM.probe METHOD F ctx N C = well_formed t_void ↔
  N ≤ 7 ∧ probe_call_well_formed METHOD C F N.
Proof.
  unfold HAS_METHOD_FORM.probe, HAS_METHOD_FORM.MFD, HAS_METHOD_FORM.MF,
    address_of_member, probe_call_well_formed.
  destruct (decide (N ≤ 7)) as [HN|HN].
  - rewrite MethodFormDetecter_defined by done. cbn.
    destruct (lookup_member C METHOD) as [|d0 ds] eqn:Hl.
    + split; [by destruct ctx|]. intros (_ & ds1 & d & ds2 & Hnil & _).
      by destruct ds1.
    + cbn. rewrite <-fmap_cons, call_operator_iff.
      split; [by split|by intros [_ ?]].
  - rewrite MethodFormDetecter_undefined by lia. split; [by destruct ctx|lia].
Qed.

(** [WithNAdditionalArgs<N>::value] is always a well-formed constant: it is
    [true] when the probe is well-formed and [false] otherwise. *)
Lemma WithNAdditionalArgs_eq (N : nat) :
  HAS_METHOD_FORM.WithNAdditionalArgs METHOD C F N =
  well_formed
    (is_well_formed (HAS_METHOD_FORM.probe METHOD F immediate_context N C)).
Proof.
  unfold HAS_METHOD_FORM.WithNAdditionalArgs, HAS_METHOD_FORM.chk,
    HAS_METHOD_FORM.EnableIfComp, sfinae.EnableIfCompilable.
  destruct (probe_cases immediate_context N) as [-> | ->]; reflexivity.
Qed.
End probe.

(** ** The bounded search *)

Section search.
Variable METHOD : string.
Variable C : class_type.
Variable F : method_form.

Local Abbreviation WithN := (HAS_METHOD_FORM.WithNAdditionalArgs METHOD C F).
Local Abbreviation WithGE :=
  (HAS_METHOD_FORM.WithGreaterOrEqualNumberOfAdditionalArgs METHOD C F).

Lemma WithNAdditionalArgs_cases (N : nat) :
  WithN N = well_formed true ∨ WithN N = well_formed false.
Proof. rewrite WithNAdditionalArgs_eq. destruct (is_well_formed _); auto. Qed.

(** One instantiation of the search struct. *)
Lemma search_match (depth N : nat) :
  WithN N = well_formed true →
  WithGE (S depth) N = ([N], well_formed true).
Proof. intros H. cbn. rewrite H. reflexivity. Qed.

Lemma search_last (depth N : nat) :
  WithN N = well_formed false → 7 ≤ N →
  WithGE (S depth) N = ([N], well_formed false).
Proof.
  intros H HN. cbn. rewrite H.
  unfold HAS_METHOD_FORM.MaxMFDAdditionalArgsCount, sfinae.MaxMFDAdditionalArgsCount.
  rewrite bool_decide_eq_false_2 by lia. reflexivity.
Qed.

Lemma search_next (depth N : nat) :
  WithN N = well_formed false → N < 7 →
  WithGE (S depth) N =
  (N :: (WithGE depth (S N)).1, (WithGE depth (S N)).2).
Proof.
  intros H HN. cbn. rewrite H.
  unfold HAS_METHOD_FORM.MaxMFDAdditionalArgsCount, sfinae.MaxMFDAdditionalArgsCount.
  rewrite bool_decide_eq_true_2 by lia. cbn.
  replace (N + 1) with (S N) by lia.
  unfold mbind, Inst_bind, instantiated. cbn.
  by destruct (WithGE depth (S N)) as [l [b| |]].
Qed.

(** Started at [N] with [m] counts left below the bound and enough depth,
    the search probes [N, N+1, ..] up to the first count that matches, or
    up to the bound when none does. *)
Lemma search_from (m : nat) : ∀ N depth,
  N + m = 7 → m < depth →
  ∃ n b, 0 < n ∧ n ≤ S m ∧
    WithGE depth N = (seq N n, well_formed b) ∧
    WithN (N + n - 1) = well_formed b ∧
    (∀ k, N ≤ k < N + n - 1 → WithN k = well_formed false) ∧
    (b = false → n = S m).
Proof.
  induction m as [|m IH]; intros N depth HN Hd;
    (destruct depth as [|depth]; [lia|]);
    destruct (WithNAdditionalArgs_cases N) as [Hm|Hm].
  - exists 1, true. rewrite (search_match _ _ Hm).
    replace (N + 1 - 1) with N by lia. split_and!; [lia|lia|done|done| |done].
    intros k ?; lia.
  - exists 1, false. rewrite (search_last _ _ Hm) by lia.
    replace (N + 1 - 1) with N by lia. split_and!; [lia|lia|done|done| |done].
    intros k ?; lia.
  - exists 1, true. rewrite (search_match _ _ Hm).
    replace (N + 1 - 1) with N by lia. split_and!; [lia|lia|done|done| |done].
    intros k ?; lia.
  - destruct (IH (S N) depth) as (n & b & Hn0 & Hn & Hr & Hb & Hk & Hf); [lia..|].
    exists (S n), b. rewrite (search_next _ _ Hm) by lia. rewrite Hr. cbn [fst snd].
    replace (N + S n - 1) with (S N + n - 1) by lia.
    split_and!; [lia|lia|done|done| |].
    + intros k Hk'. destruct (decide (k = N)) as [->|]; [done|]. apply Hk. lia.
    + intros Hb'. specialize (Hf Hb'). lia.
Qed.

(** More depth than the search needs changes nothing. *)
Lemma search_depth_irrelevant (m : nat) : ∀ N d1 d2,
  N + m = 7 → m < d1 → m < d2 → WithGE d1 N = WithGE d2 N.
Proof.
  induction m as [|m IH]; intros N d1 d2 HN H1 H2;
    (destruct d1 as [|d1]; [lia|]); (destruct d2 as [|d2]; [lia|]);
    destruct (WithNAdditionalArgs_cases N) as [Hm|Hm].
  - by rewrite !(search_match _ _ Hm).
  - by rewrite !(search_last _ _ Hm) by lia.
  - by rewrite !(search_match _ _ Hm).
  - rewrite !(search_next _ _ Hm) by lia. by rewrite (IH (S N) d1 d2) by lia.
Qed.

(** Whatever the depth, a count beyond the bound is never probed by a
    search that starts within the bound. *)
Lemma search_probes_bounded (depth : nat) : ∀ N,
  N ≤ 7 → Forall (λ k, k ≤ 7) (WithGE depth N).1.
Proof.
  induction depth as [|depth IH]; intros N HN; [constructor|].
  destruct (WithNAdditionalArgs_cases N) as [Hm|Hm].
  - rewrite (search_match _ _ Hm). cbn. constructor; [done|constructor].
  - destruct (decide (N < 7)) as [Hlt|Hge].
    + rewrite (search_next _ _ Hm) by done. cbn. constructor; [done|].
      apply IH. lia.
    + rewrite (search_last _ _ Hm) by lia. cbn. constructor; [done|constructor].
Qed.
End search.

(** ** The detectors on the example classes *)

Example Train_arity_0_1_2 :
  HAS_METHOD_FORM.WithNAdditionalArgs "Train" class_A TrainForm <$> [0; 1; 2]
  = [well_formed false; well_formed true; well_formed false].
Proof. reflexivity. Qed.

Example Train_found : HAS_METHOD_FORM.value "Train" class_A TrainForm 8
  = ([0; 1], well_formed true).
Proof. reflexivity. Qed.

Example depth_exhausted : HAS_METHOD_FORM.value "Predict" class_A TrainForm 7
  = ([0; 1; 2; 3; 4; 5; 6], hard_error).
Proof. reflexivity. Qed.

Example B_arity_7_and_8 :
  HAS_METHOD_FORM.value "f" class_B (MethodFormAlias t_void [] false) 8
    = ([0; 1; 2; 3; 4; 5; 6; 7], well_formed true) ∧
  HAS_METHOD_FORM.value "g" class_B (MethodFormAlias t_double [] false) 8
    = ([0; 1; 2; 3; 4; 5; 6; 7], well_formed false) ∧
  HAS_METHOD_FORM.value "h" class_B (MethodFormAlias t_int [] false) 8
    = ([0; 1; 2; 3; 4; 5; 6; 7], well_formed false).
Proof. repeat split; reflexivity. Qed.

Example Train_exact_signature :
  HAS_MEM_FUNC.value "Train" class_A
    (ptr_to_member_function "A"
       (FunctionType t_void [const_ref arma_mat; const_ref arma_Row_size_t; t_double])
       false) = well_formed true ∧
  HAS_MEM_FUNC.value "Train" class_A
    (ptr_to_member_function "A"
       (FunctionType t_void [const_ref arma_mat; const_ref arma_Row_size_t]) false)
    = well_formed false ∧
  HAS_MEM_FUNC.value "h" class_B (ptr_to_data_member "B" t_int) = well_formed true.
Proof. repeat split; reflexivity. Qed.

(** ** The fixed-arity detector *)

Lemma WithNAdditionalArgs_true_iff (METHOD : string) (C : class_type)
    (F : method_form) (N : nat) :
  HAS_METHOD_FORM.WithNAdditionalArgs METHOD C F N = well_formed true ↔
  N ≤ 7 ∧ probe_call_well_formed METHOD C F N.
Proof.
  rewrite WithNAdditionalArgs_eq, <-(probe_well_formed_iff METHOD C F immediate_context).
  destruct (probe_cases METHOD C F immediate_context N) as [-> | ->]; cbn;
    split; congruence.
Qed.

Lemma WithNAdditionalArgs_false_iff (METHOD : string) (C : class_type)
    (F : method_form) (N : nat) :
  HAS_METHOD_FORM.WithNAdditionalArgs METHOD C F N = well_formed false ↔
  ¬ (N ≤ 7 ∧ probe_call_well_formed METHOD C F N).
Proof.
  rewrite <-WithNAdditionalArgs_true_iff.
  destruct (WithNAdditionalArgs_cases METHOD C F N) as [-> | ->];
    split; congruence.
Qed.

(** A class that declares the name once: the declaration decides. *)
Lemma probe_call_single (METHOD : string) (C : class_type) (F : method_form)
    (N : nat) (d : member_declaration) :
  lookup_member C METHOD = [d] →
  probe_call_well_formed METHOD C F N ↔ of_form F C N d.
Proof.
  intros Hl. unfold probe_call_well_formed. rewrite Hl. split.
  - intros (ds1 & d' & ds2 & Heq & Hd & _).
    destruct ds1 as [|? [|??]]; simplify_eq/=. done.
  - intros Hd. exists [], d, []. split_and!; [done..|constructor].
Qed.

Lemma of_form_instance (F : method_form) (C : class_type) (N : nat) (Ts : list type) :
  of_form F C N (method (FunctionType (form_return F) (form_prefix F ++ Ts))
                        (form_const F)) ↔ N = length Ts.
Proof.
  unfold of_form, instantiate_form. cbn. split.
  - intros (Ts' & <- & [= H]). by simplify_list_eq.
  - intros ->. by exists Ts.
Qed.

(** C2: for a count N between 0 and 7 the fixed-arity detector is true
    exactly when the call of a probe function with the one parameter
    [MF<C, T1, .., TN>] and the argument [&C::METHOD] is well-formed, and it
    is false when that call is ill-formed: when the method is missing, when
    its only declaration has another number of parameters, or other
    qualifiers. *)
Theorem fixed_arity_detector_iff_probe_call (METHOD : string) (C : class_type)
    (F : method_form) (N : nat) :
  N ≤ 7 →
  (HAS_METHOD_FORM.WithNAdditionalArgs METHOD C F N = well_formed true ↔
   probe_call_well_formed METHOD C F N) ∧
  (HAS_METHOD_FORM.WithNAdditionalArgs METHOD C F N = well_formed false ↔
   ¬ probe_call_well_formed METHOD C F N) ∧
  (lookup_member C METHOD = [] →
   HAS_METHOD_FORM.WithNAdditionalArgs METHOD C F N = well_formed false) ∧
  (∀ f q, lookup_member C METHOD = [method f q] →
     length (parameter_types f) ≠ length (form_prefix F) + N ∨ q ≠ form_const F →
     HAS_METHOD_FORM.WithNAdditionalArgs METHOD C F N = well_formed false).
Proof.
  intros HN. split_and!.
  - rewrite WithNAdditionalArgs_true_iff. by split; [intros []|].
  - rewrite WithNAdditionalArgs_false_iff. split; [auto|by intros ? []].
  - intros Hl. apply WithNAdditionalArgs_false_iff. intros [_ (ds1 & ? & ? & Heq & _)].
    rewrite Hl in Heq. by destruct ds1.
  - intros f q Hl Hbad. apply WithNAdditionalArgs_false_iff. intros [_ Hp].
    apply (probe_call_single _ _ _ _ _ Hl) in Hp as (Ts & HTs & Heq).
    unfold instantiate_form in Heq. cbn in Heq. injection Heq as -> ->.
    cbn in Hbad. rewrite length_app in Hbad. destruct Hbad as [?|?]; [lia|done].
Qed.

Lemma fixed_arity_detector_iff_probe_call_witness :
  1 ≤ 7 ∧
  (HAS_METHOD_FORM.WithNAdditionalArgs "Train" class_A TrainForm 1 = well_formed true ↔
   probe_call_well_formed "Train" class_A TrainForm 1) ∧
  HAS_METHOD_FORM.WithNAdditionalArgs "Predict" class_A TrainForm 1 = well_formed false ∧
  HAS_METHOD_FORM.WithNAdditionalArgs "Train" class_A TrainForm 2 = well_formed false.
Proof.
  split; [lia|]. split_and!.
  - apply (fixed_arity_detector_iff_probe_call "Train" class_A TrainForm 1). lia.
  - apply (fixed_arity_detector_iff_probe_call "Predict" class_A TrainForm 1);
      [lia|reflexivity].
  - eapply (fixed_arity_detector_iff_probe_call "Train" class_A TrainForm 2);
      [lia|reflexivity|]. left. cbn. lia.
Defined.

(** ** The bounded search of the generated detector *)

Section value.
Variable METHOD : string.
Variable C : class_type.
Variable F : method_form.
Variable depth : nat.
Hypothesis depth_sufficient : 8 ≤ depth.

Local Abbreviation WithN := (HAS_METHOD_FORM.WithNAdditionalArgs METHOD C F).
Local Abbreviation value := (HAS_METHOD_FORM.value METHOD C F depth).

Lemma value_true_iff :
  value.2 = well_formed true ↔ ∃ N, N ≤ 7 ∧ WithN N = well_formed true.
Proof.
  unfold HAS_METHOD_FORM.value.
  destruct (search_from METHOD C F 7 0 depth)
    as (n & b & Hn0 & Hn & Hr & Hb & Hk & Hf); [lia..|].
  rewrite Hr. cbn [fst snd]. cbn in Hb. split.
  - intros [= ->]. exists (n - 1). split; [lia|done].
  - intros (N & HN & Hm). destruct b; [done|]. specialize (Hf eq_refl). subst n.
    destruct (decide (N = 7)) as [->|]; [cbn in Hb; congruence|].
    rewrite Hk in Hm by lia. done.
Qed.

Lemma value_first_match (k : nat) :
  k ≤ 7 → WithN k = well_formed true →
  (∀ j, j < k → WithN j = well_formed false) →
  value = (seq 0 (S k), well_formed true).
Proof.
  intros Hk7 Hm Hfirst. unfold HAS_METHOD_FORM.value.
  destruct (search_from METHOD C F 7 0 depth)
    as (n & b & Hn0 & Hn & Hr & Hb & Hk & Hf); [lia..|].
  rewrite Hr. cbn in Hb.
  assert (n - 1 = k) as Hnk.
  { destruct (decide (n - 1 < k)).
    - rewrite Hfirst in Hb by done. injection Hb as <-. specialize (Hf eq_refl). lia.
    - destruct (decide (k < n - 1)); [|lia]. rewrite Hk in Hm by lia. done. }
  rewrite Hnk, Hm in Hb. injection Hb as <-. by replace n with (S k) by lia.
Qed.

Lemma value_no_match :
  (∀ k, k ≤ 7 → WithN k = well_formed false) →
  value = (seq 0 8, well_formed false).
Proof.
  intros Hnone. unfold HAS_METHOD_FORM.value.
  destruct (search_from METHOD C F 7 0 depth)
    as (n & b & Hn0 & Hn & Hr & Hb & Hk & Hf); [lia..|].
  rewrite Hr. cbn in Hb. rewrite Hnone in Hb by lia. injection Hb as <-.
  by rewrite (Hf eq_refl).
Qed.

Lemma value_member_missing :
  lookup_member C METHOD = [] → value = (seq 0 8, well_formed false).
Proof.
  intros Hl. apply value_no_match. intros k Hk.
  apply WithNAdditionalArgs_false_iff.
  intros [_ (ds1 & ? & ? & Heq & _)]. rewrite Hl in Heq. by destruct ds1.
Qed.
End value.

(** C1: the detector's [value] is true exactly when the fixed-arity detector
    matches for some count between 0 and 7.  The counts are probed in
    increasing order from 0: with a first matching count [k] the probed
    counts are exactly 0, .., k and nothing after [k]; without a match they
    are 0, .., 7. *)
Theorem bounded_search_finds_first_match (METHOD : string) (C : class_type)
    (F : method_form) (depth : nat) :
  8 ≤ depth →
  ((HAS_METHOD_FORM.value METHOD C F depth).2 = well_formed true ↔
   ∃ N, N ≤ 7 ∧ HAS_METHOD_FORM.WithNAdditionalArgs METHOD C F N = well_formed true) ∧
  (∀ k, k ≤ 7 →
     HAS_METHOD_FORM.WithNAdditionalArgs METHOD C F k = well_formed true →
     (∀ j, j < k → HAS_METHOD_FORM.WithNAdditionalArgs METHOD C F j = well_formed false) →
     HAS_METHOD_FORM.value METHOD C F depth = (seq 0 (S k), well_formed true)) ∧
  ((∀ k, k ≤ 7 → HAS_METHOD_FORM.WithNAdditionalArgs METHOD C F k = well_formed false) →
   HAS_METHOD_FORM.value METHOD C F depth = (seq 0 8, well_formed false)).
Proof.
  intros Hd. split_and!.
  - by apply value_true_iff.
  - by apply value_first_match.
  - by apply value_no_match.
Qed.

Lemma bounded_search_finds_first_match_witness :
  8 ≤ 1024 ∧
  HAS_METHOD_FORM.value "Train" class_A TrainForm 1024 = ([0; 1], well_formed true) ∧
  HAS_METHOD_FORM.value "Predict" class_A TrainForm 1024 =
    ([0; 1; 2; 3; 4; 5; 6; 7], well_formed false).
Proof.
  assert (8 ≤ 1024) as H by lia. split; [exact H|]. split.
  - destruct (bounded_search_finds_first_match "Train" class_A TrainForm 1024 H)
      as (_ & Hfirst & _).
    apply (Hfirst 1); [lia|reflexivity|].
    intros j Hj. assert (j = 0) as -> by lia. reflexivity.
  - destruct (bounded_search_finds_first_match "Predict" class_A TrainForm 1024 H)
      as (_ & _ & Hnone).
    apply Hnone. intros k Hk.
    do 8 (destruct k as [|k]; [reflexivity|]). lia.
Defined.

(** C3: for every count from 0 to 7, a probe that is ill-formed (an error
    where it is written outside a substitution) makes the fixed-arity
    detector false, and the detector is a well-formed constant; for a class
    without any member of the probed name the search over the counts 0 to 7
    is well-formed and false. *)
Theorem ill_formed_probe_is_false (METHOD : string) (C : class_type)
    (F : method_form) :
  (∀ N, N ≤ 7 →
        HAS_METHOD_FORM.probe METHOD F ordinary_context N C = hard_error →
        HAS_METHOD_FORM.WithNAdditionalArgs METHOD C F N = well_formed false) ∧
  (∀ N, N ≤ 7 →
        ∃ b, HAS_METHOD_FORM.WithNAdditionalArgs METHOD C F N = well_formed b) ∧
  (∀ depth, 8 ≤ depth → lookup_member C METHOD = [] →
        HAS_METHOD_FORM.value METHOD C F depth = (seq 0 8, well_formed false)).
Proof.
  split_and!.
  - intros N _ Hhard. apply WithNAdditionalArgs_false_iff.
    rewrite <-(probe_well_formed_iff METHOD C F ordinary_context). congruence.
  - intros N _. destruct (WithNAdditionalArgs_cases METHOD C F N); eauto.
  - intros depth Hd Hl. by apply value_member_missing.
Qed.

Lemma ill_formed_probe_is_false_witness :
  0 ≤ 7 ∧
  HAS_METHOD_FORM.probe "Predict" TrainForm ordinary_context 0 class_A = hard_error ∧
  HAS_METHOD_FORM.WithNAdditionalArgs "Predict" class_A TrainForm 0 = well_formed false ∧
  8 ≤ 1024 ∧ lookup_member class_A "Predict" = [] ∧
  HAS_METHOD_FORM.value "Predict" class_A TrainForm 1024 = (seq 0 8, well_formed false).
Proof.
  destruct (ill_formed_probe_is_false "Predict" class_A TrainForm) as (Hsoft & _ & Hnone).
  assert (8 ≤ 1024) as H by lia.
  split_and!; [lia|reflexivity|apply Hsoft; [lia|reflexivity]|exact H|reflexivity|
               by apply Hnone].
Defined.

(** C4: with room for eight nested instantiations the search ends with a
    definite result, probes at most eight counts and none above 7, and more
    room changes nothing; at a count of 7 or more it never instantiates a
    further search, and at the bound without a match its result is false. *)
Theorem bounded_search_terminates (METHOD : string) (C : class_type)
    (F : method_form) (depth : nat) :
  8 ≤ depth →
  (∃ b, (HAS_METHOD_FORM.value METHOD C F depth).2 = well_formed b) ∧
  Forall (λ N, N ≤ 7) (HAS_METHOD_FORM.value METHOD C F depth).1 ∧
  length (HAS_METHOD_FORM.value METHOD C F depth).1 ≤ 8 ∧
  HAS_METHOD_FORM.value METHOD C F depth = HAS_METHOD_FORM.value METHOD C F 8 ∧
  (∀ N d, 7 ≤ N →
     (HAS_METHOD_FORM.WithGreaterOrEqualNumberOfAdditionalArgs METHOD C F (S d) N).1
     = [N]) ∧
  (∀ d, HAS_METHOD_FORM.WithNAdditionalArgs METHOD C F 7 = well_formed false →
     HAS_METHOD_FORM.WithGreaterOrEqualNumberOfAdditionalArgs METHOD C F (S d) 7
     = ([7], well_formed false)).
Proof.
  intros Hd. split_and!.
  - unfold HAS_METHOD_FORM.value.
    destruct (search_from METHOD C F 7 0 depth) as (n & b & _ & _ & -> & _);
      [lia..|]. by exists b.
  - unfold HAS_METHOD_FORM.value. apply search_probes_bounded. lia.
  - unfold HAS_METHOD_FORM.value.
    destruct (search_from METHOD C F 7 0 depth) as (n & b & _ & Hn & -> & _);
      [lia..|]. cbn [fst]. by rewrite length_seq.
  - unfold HAS_METHOD_FORM.value. apply (search_depth_irrelevant _ _ _ 7); lia.
  - intros N d HN. destruct (WithNAdditionalArgs_cases METHOD C F N) as [Hm|Hm].
    + by rewrite (search_match _ _ _ _ _ Hm).
    + by rewrite (search_last _ _ _ _ _ Hm HN).
  - intros d Hm. by apply search_last.
Qed.

Lemma bounded_search_terminates_witness :
  8 ≤ 8 ∧
  (∃ b, (HAS_METHOD_FORM.value "Predict" class_A TrainForm 8).2 = well_formed b) ∧
  HAS_METHOD_FORM.WithGreaterOrEqualNumberOfAdditionalArgs "Predict" class_A TrainForm 1 7
  = ([7], well_formed false).
Proof.
  assert (8 ≤ 8) as H by lia.
  destruct (bounded_search_terminates "Predict" class_A TrainForm 8 H)
    as (Hb & _ & _ & _ & _ & Hlast).
  split_and!; [exact H|exact Hb|]. apply Hlast. reflexivity.
Defined.

(** ** A class with one declaration of the method *)

Lemma value_single_instance (METHOD : string) (C : class_type) (F : method_form)
    (Ts : list type) (depth : nat) :
  8 ≤ depth →
  lookup_member C METHOD =
    [method (FunctionType (form_return F) (form_prefix F ++ Ts)) (form_const F)] →
  (HAS_METHOD_FORM.value METHOD C F depth).2
  = well_formed (bool_decide (length Ts ≤ 7)).
Proof.
  intros Hd Hl.
  assert (∀ N, HAS_METHOD_FORM.WithNAdditionalArgs METHOD C F N = well_formed true ↔
               N ≤ 7 ∧ N = length Ts) as Hm.
  { intros N. rewrite WithNAdditionalArgs_true_iff, (probe_call_single _ _ _ _ _ Hl).
    by rewrite of_form_instance. }
  destruct (decide (length Ts ≤ 7)) as [Hle|Hgt].
  - rewrite bool_decide_eq_true_2 by done. apply value_true_iff; [done|].
    exists (length Ts). split; [done|]. by apply Hm.
  - rewrite bool_decide_eq_false_2 by done.
    rewrite (value_no_match METHOD C F depth Hd); [done|].
    intros k Hk. destruct (WithNAdditionalArgs_cases METHOD C F k) as [Ht|]; [|done].
    apply Hm in Ht. lia.
Qed.

(** C5: the largest count is 7, inclusive: for a class whose only
    declaration of the method has the parameters of the form and [Ts] more,
    the search is true with 7 more parameters and false with 8 (it is true
    exactly up to 7). *)
Theorem bound_is_seven_inclusive (METHOD : string) (C : class_type)
    (F : method_form) (Ts : list type) (depth : nat) :
  8 ≤ depth →
  lookup_member C METHOD =
    [method (FunctionType (form_return F) (form_prefix F ++ Ts)) (form_const F)] →
  sfinae.MaxMFDAdditionalArgsCount = 7 ∧
  (length Ts = 7 → (HAS_METHOD_FORM.value METHOD C F depth).2 = well_formed true) ∧
  (length Ts = 8 → (HAS_METHOD_FORM.value METHOD C F depth).2 = well_formed false) ∧
  (HAS_METHOD_FORM.value METHOD C F depth).2 = well_formed (bool_decide (length Ts ≤ 7)).
Proof.
  intros Hd Hl. rewrite (value_single_instance _ _ _ _ _ Hd Hl).
  split_and!; [done| | |done]; intros ->; done.
Qed.

Lemma bound_is_seven_inclusive_witness :
  8 ≤ 1024 ∧
  (HAS_METHOD_FORM.value "f" class_B (MethodFormAlias t_void [] false) 1024).2
  = well_formed true ∧
  (HAS_METHOD_FORM.value "g" class_B (MethodFormAlias t_double [] false) 1024).2
  = well_formed false.
Proof.
  assert (8 ≤ 1024) as H by lia. split; [exact H|]. split.
  - destruct (bound_is_seven_inclusive "f" class_B (MethodFormAlias t_void [] false)
                (replicate 7 t_int) 1024 H eq_refl) as (_ & H7 & _).
    apply H7. reflexivity.
  - destruct (bound_is_seven_inclusive "g" class_B (MethodFormAlias t_double [] false)
                (replicate 8 t_int) 1024 H eq_refl) as (_ & _ & H8 & _).
    apply H8. reflexivity.
Defined.

(** ** The fixed-signature detector *)


Lemma elem_of_lookup_member (T : class_type) (name : string) (d : member_declaration) :
  d ∈ lookup_member T name ↔ Member name d ∈ class_members T.
Proof.
  unfold lookup_member. rewrite list_elem_of_fmap. split.
  - intros ([n d'] & -> & Hin). apply list_elem_of_filter in Hin as [Hn Hin].
    cbn in Hn. by subst.
  - intros Hin. exists (Member name d). split; [done|].
    by apply list_elem_of_filter.
Qed.


(** Every type converts to itself. *)
Lemma qualification_conversion_refl (t : type) :
  (∀ b, qualification_conversion b t t = true) ∧
  (∀ P, t = t_ptr P → ∀ b, qualification_conversion b P P = true).
Proof.
  induction t as [| | | | |name|u [IH1 IH2]|u [IH1 IH2]|u [IH1 IH2]];
    (split; [|intros P [= <-]; done || exact IH1]); intros b; cbn;
    rewrite ?bool_decide_eq_true_2 by done; try done.
  destruct u; cbn; rewrite ?bool_decide_eq_true_2 by done; try done.
  by apply (IH2 _ eq_refl).
Qed.

Lemma template_argument_converts_refl (A : pointer_type) :
  template_argument_converts A A = true.
Proof.
  destruct A as [?? ?|?|cls t]; cbn; rewrite ?bool_decide_eq_true_2 by done; [done..|].
  apply qualification_conversion_refl.
Qed.

(** To the signature of a function or of a member function, only that very
    type converts. *)
Lemma template_argument_converts_function (A sig : pointer_type) :
  (∀ cls t, sig ≠ ptr_to_data_member cls t) →
  template_argument_converts A sig = true ↔ A = sig.
Proof.
  intros Hsig. destruct A, sig; cbn; rewrite ?bool_decide_eq_true; try done.
  by destruct (Hsig cls0 t0).
Qed.


Lemma HAS_MEM_FUNC_value_eq (FUNC : string) (T : class_type) (sig : pointer_type) :
  HAS_MEM_FUNC.value FUNC T sig =
  well_formed
    (bool_decide
       (length (filter (λ A, template_argument_converts A sig = true)
                  (address_type T <$> lookup_member T FUNC)) = 1)).
Proof.
  unfold HAS_MEM_FUNC.value, HAS_MEM_FUNC.chk, HAS_MEM_FUNC.type_check,
    address_of_member, converted_template_argument.
  destruct (lookup_member T FUNC) as [|d ds] eqn:Hl; [reflexivity|].
  cbn [mbind compile_bind].
  by destruct (filter _ _) as [|A [|??]].
Qed.









(** ** The generated struct in its scope *)

Lemma expand_fresh (METHOD NAME : string) (scope : gmap string string) :
  scope !! NAME = None →
  HAS_METHOD_FORM.expand METHOD NAME scope = well_formed (<[NAME := METHOD]> scope).
Proof. intros H. unfold HAS_METHOD_FORM.expand. by rewrite H. Qed.

Lemma template_id_value_class_form (depth : nat) (scope : gmap string string)
    (METHOD NAME : string) (C : class_type) (F : method_form) :
  scope !! NAME = Some METHOD →
  HAS_METHOD_FORM.template_id_value depth scope NAME
    [HAS_METHOD_FORM.type_argument C; HAS_METHOD_FORM.template_template_argument F]
  = HAS_METHOD_FORM.value METHOD C F depth.
Proof. intros H. unfold HAS_METHOD_FORM.template_id_value. by rewrite H. Qed.

Lemma template_id_value_form_class (depth : nat) (scope : gmap string string)
    (NAME : string) (C : class_type) (F : method_form) :
  HAS_METHOD_FORM.template_id_value depth scope NAME
    [HAS_METHOD_FORM.template_template_argument F; HAS_METHOD_FORM.type_argument C]
  = ([], hard_error).
Proof. unfold HAS_METHOD_FORM.template_id_value. by destruct (scope !! NAME). Qed.

(** C7: the query of the header's own documentation,
    [HAS_METHOD_FORM(Train, HasTrain); HasTrain<TrainForm, A>::value], with
    the form first and the class second.  The generated struct takes the
    class first and the form second, so the documented query is an error
    and the query with the arguments exchanged gives the result. *)
Theorem documented_query_order_is_rejected :
  HAS_METHOD_FORM.expand "Train" "HasTrain" ∅ = well_formed {["HasTrain" := "Train"]} ∧
  HAS_METHOD_FORM.template_id_value 1024 {["HasTrain" := "Train"]} "HasTrain"
    [HAS_METHOD_FORM.template_template_argument TrainForm;
     HAS_METHOD_FORM.type_argument class_A]
  = ([], hard_error) ∧
  HAS_METHOD_FORM.template_id_value 1024 {["HasTrain" := "Train"]} "HasTrain"
    [HAS_METHOD_FORM.type_argument class_A;
     HAS_METHOD_FORM.template_template_argument TrainForm]
  = ([0; 1], well_formed true).
Proof.
  split_and!.
  - by rewrite expand_fresh.
  - apply template_id_value_form_class.
  - rewrite (template_id_value_class_form _ _ "Train"); [reflexivity|].
    apply lookup_singleton_eq.
Qed.

(** ** Two overloads *)

Section two_overloads.
Variables (name f : string) (R : type) (cv : bool).

Local Abbreviation C2 := (class_two_overloads name f R cv).
Local Abbreviation F2 := (form_any_arguments R cv).

Lemma lookup_two_overloads :
  lookup_member C2 f =
  [method (FunctionType R [t_int]) cv; method (FunctionType R [t_int; t_int]) cv].
Proof.
  unfold lookup_member. cbn [class_members class_two_overloads].
  rewrite !filter_cons, filter_nil. cbn [member_name].
  by destruct (decide (f = f)).
Qed.

Lemma of_form_any_arguments (N : nat) (Ts : list type) :
  of_form F2 C2 N (method (FunctionType R Ts) cv) ↔ N = length Ts.
Proof. apply (of_form_instance F2 C2 N Ts). Qed.

Lemma two_overloads_0 :
  HAS_METHOD_FORM.WithNAdditionalArgs f C2 F2 0 = well_formed false.
Proof.
  apply WithNAdditionalArgs_false_iff. intros [_ (ds1 & d & ds2 & Hl & Hd & _)].
  rewrite lookup_two_overloads in Hl.
  destruct ds1 as [|? [|? [|??]]]; simplify_eq/=;
    by apply of_form_any_arguments in Hd.
Qed.

Lemma two_overloads_1 :
  HAS_METHOD_FORM.WithNAdditionalArgs f C2 F2 1 = well_formed true.
Proof.
  apply WithNAdditionalArgs_true_iff. split; [lia|].
  exists [], (method (FunctionType R [t_int]) cv),
    [method (FunctionType R [t_int; t_int]) cv].
  split_and!; [apply lookup_two_overloads|by apply of_form_any_arguments|].
  constructor; [|constructor]. by rewrite of_form_any_arguments.
Qed.
End two_overloads.

(** C8: for a class with the overloads [f(int)] and [f(int, int)] and a form
    that covers both, the search is well-formed and true: count 0 does not
    match, count 1 is the first match, and the search probes 0 and 1 only. *)
Theorem two_overloads_found_at_arity_one (name f : string) (R : type) (cv : bool)
    (depth : nat) :
  8 ≤ depth →
  HAS_METHOD_FORM.WithNAdditionalArgs f (class_two_overloads name f R cv)
    (form_any_arguments R cv) 0 = well_formed false ∧
  HAS_METHOD_FORM.WithNAdditionalArgs f (class_two_overloads name f R cv)
    (form_any_arguments R cv) 1 = well_formed true ∧
  HAS_METHOD_FORM.value f (class_two_overloads name f R cv)
    (form_any_arguments R cv) depth = ([0; 1], well_formed true).
Proof.
  intros Hd. split_and!.
  - apply two_overloads_0.
  - apply two_overloads_1.
  - apply (value_first_match _ _ _ _ Hd 1); [lia|apply two_overloads_1|].
    intros j Hj. assert (j = 0) as -> by lia. apply two_overloads_0.
Qed.

Lemma two_overloads_found_at_arity_one_witness :
  8 ≤ 1024 ∧
  HAS_METHOD_FORM.value "f" (class_two_overloads "A" "f" t_void false)
    (form_any_arguments t_void false) 1024 = ([0; 1], well_formed true).
Proof.
  assert (8 ≤ 1024) as H by lia. split; [exact H|].
  apply (two_overloads_found_at_arity_one "A" "f" t_void false 1024 H).
Defined.

(** ** Counts beyond the bound *)

(** C10: [MethodFormDetecter] has a definition for the counts 0 to 7 only.
    Used directly with a larger count it is an incomplete type and an object
    of it cannot be created: an error, not a false result.  The search never
    reaches such a count: whatever the depth, it only probes counts up to 7,
    for which the definition exists. *)
Theorem MethodFormDetecter_defined_up_to_seven (C : class_type) (F : method_form)
    (N : nat) :
  (is_Some (sfinae.MethodFormDetecter C F N) ↔ N ≤ 7) ∧
  (value_initialize ordinary_context (sfinae.MethodFormDetecter C F N) = hard_error ↔
   7 < N) ∧
  (∀ METHOD, 7 < N → HAS_METHOD_FORM.probe METHOD F ordinary_context N C = hard_error) ∧
  (∀ METHOD depth,
     Forall (λ k, k ≤ 7 ∧ is_Some (sfinae.MethodFormDetecter C F k))
       (HAS_METHOD_FORM.value METHOD C F depth).1).
Proof.
  split_and!.
  - destruct (decide (N ≤ 7)) as [HN|HN].
    + rewrite MethodFormDetecter_defined by done. split; [done|eauto].
    + rewrite MethodFormDetecter_undefined by lia. split; [by intros [??]|done].
  - destruct (decide (N ≤ 7)) as [HN|HN].
    + rewrite MethodFormDetecter_defined by done. split; [done|lia].
    + rewrite MethodFormDetecter_undefined by lia. split; [lia|done].
  - intros METHOD HN. unfold HAS_METHOD_FORM.probe, HAS_METHOD_FORM.MFD.
    by rewrite MethodFormDetecter_undefined.
  - intros METHOD depth. unfold HAS_METHOD_FORM.value.
    eapply Forall_impl; [apply search_probes_bounded; lia|].
    intros k Hk. split; [done|]. rewrite MethodFormDetecter_defined by done. eauto.
Qed.

Lemma MethodFormDetecter_defined_up_to_seven_witness :
  7 < 8 ∧
  HAS_METHOD_FORM.probe "Train" TrainForm ordinary_context 8 class_A = hard_error.
Proof.
  assert (7 < 8) as H by lia. split; [exact H|].
  by apply (MethodFormDetecter_defined_up_to_seven class_A TrainForm 8).
Defined.

(** * Further properties of the detectors *)

(** ** What a declaration of the form looks like *)

Lemma of_form_method (F : method_form) (C : class_type) (N : nat)
    (d : member_declaration) :
  of_form F C N d ↔
  ∃ Ts, length Ts = N ∧
        d = method (FunctionType (form_return F) (form_prefix F ++ Ts)) (form_const F).
Proof.
  unfold of_form, instantiate_form. split; intros (Ts & HN & Hd); exists Ts;
    (split; [done|]).
  - destruct d as [[r ps] q| |]; cbn in Hd; [|discriminate..]. by injection Hd as -> -> ->.
  - by subst d.
Qed.

Lemma of_form_count_unique (F : method_form) (C : class_type) (N N' : nat)
    (d : member_declaration) :
  of_form F C N d → of_form F C N' d → N = N'.
Proof.
  rewrite !of_form_method. intros (Ts & <- & ->) (Ts' & <- & [= H]).
  by simplify_list_eq.
Qed.

(** A true search has a matching count, whatever the depth. *)
Lemma search_true_matches (METHOD : string) (C : class_type) (F : method_form)
    (depth : nat) : ∀ N,
  (HAS_METHOD_FORM.WithGreaterOrEqualNumberOfAdditionalArgs METHOD C F depth N).2
    = well_formed true →
  ∃ k, HAS_METHOD_FORM.WithNAdditionalArgs METHOD C F k = well_formed true.
Proof.
  induction depth as [|depth IH]; intros N; [discriminate|].
  destruct (WithNAdditionalArgs_cases METHOD C F N) as [Hm|Hm]; [eauto|].
  destruct (decide (N < 7)) as [Hlt|Hge].
  - rewrite (search_next _ _ _ _ _ Hm Hlt). cbn [snd]. apply IH.
  - rewrite (search_last _ _ _ _ _ Hm) by lia. discriminate.
Qed.

Lemma value_true_probe_call (METHOD : string) (C : class_type) (F : method_form)
    (depth : nat) :
  (HAS_METHOD_FORM.value METHOD C F depth).2 = well_formed true →
  ∃ N, N ≤ 7 ∧ probe_call_well_formed METHOD C F N.
Proof.
  intros H. apply search_true_matches in H as [k Hk].
  apply WithNAdditionalArgs_true_iff in Hk. eauto.
Qed.

(** X1: at count 0 the fixed-arity detector of [HAS_METHOD_FORM] and the
    detector of [HAS_MEM_FUNC] for the signature [MF<C>] agree, for every
    class, method name and form. *)
Theorem count_zero_is_HAS_MEM_FUNC (METHOD : string) (C : class_type)
    (F : method_form) :
  HAS_METHOD_FORM.WithNAdditionalArgs METHOD C F 0 =
  HAS_MEM_FUNC.value METHOD C (instantiate_form F C []).
Proof.
  unfold HAS_METHOD_FORM.WithNAdditionalArgs, HAS_METHOD_FORM.chk,
    HAS_METHOD_FORM.EnableIfComp, sfinae.EnableIfCompilable, HAS_METHOD_FORM.probe,
    HAS_METHOD_FORM.MFD, HAS_METHOD_FORM.MF, HAS_MEM_FUNC.value, HAS_MEM_FUNC.chk,
    HAS_MEM_FUNC.type_check, sfinae.call_operator.
  cbn. destruct (address_of_member immediate_context C METHOD) as [set| |]; cbn;
    [|reflexivity..].
  unfold address_of_overloaded, converted_template_argument.
  rewrite (list_filter_iff (λ A, template_argument_converts A _ = true)
             (λ A, A = instantiate_form F C []))
    by (intros A; by apply template_argument_converts_function).
  by destruct (filter _ set) as [|? [|??]].
Qed.

(** X2: the detector is never true without a method to show for it: when
    [value] is true, at whatever depth, the class declares a method of the
    probed name with the return type, the qualifier and the leading
    parameters of the form and at most 7 more parameters. *)
Theorem value_true_has_method (METHOD : string) (C : class_type) (F : method_form)
    (depth : nat) :
  (HAS_METHOD_FORM.value METHOD C F depth).2 = well_formed true →
  ∃ Ts, length Ts ≤ 7 ∧
    Member METHOD
      (method (FunctionType (form_return F) (form_prefix F ++ Ts)) (form_const F))
    ∈ class_members C.
Proof.
  intros H. apply value_true_probe_call in H as (N & HN & ds1 & d & ds2 & Hl & Hd & _).
  apply of_form_method in Hd as (Ts & <- & ->). exists Ts. split; [done|].
  apply elem_of_lookup_member. rewrite Hl. apply elem_of_app. right. by left.
Qed.

Lemma value_true_has_method_witness :
  (HAS_METHOD_FORM.value "Train" class_A TrainForm 8).2 = well_formed true ∧
  ∃ Ts, length Ts ≤ 7 ∧
    Member "Train"
      (method (FunctionType t_void
                 ([const_ref arma_mat; const_ref arma_Row_size_t] ++ Ts)) false)
    ∈ class_members class_A.
Proof.
  split; [reflexivity|].
  apply (value_true_has_method "Train" class_A TrainForm 8). reflexivity.
Defined.

(** X3: when the search detector is true, the exact-signature detector of
    [HAS_MEM_FUNC] is true for one signature [MF<C, T1, .., TN>] of the form
    with at most 7 additional types. *)
Theorem value_true_exact_signature (METHOD : string) (C : class_type)
    (F : method_form) (depth : nat) :
  (HAS_METHOD_FORM.value METHOD C F depth).2 = well_formed true →
  ∃ Ts, length Ts ≤ 7 ∧
    HAS_MEM_FUNC.value METHOD C (instantiate_form F C Ts) = well_formed true.
Proof.
  intros H. apply value_true_probe_call in H as (N & HN & ds1 & d & ds2 & Hl & Hd & Hall).
  destruct Hd as (Ts & <- & Hd). exists Ts. split; [done|].
  rewrite HAS_MEM_FUNC_value_eq, bool_decide_eq_true_2; [done|].
  rewrite (list_filter_iff _ (λ A, A = instantiate_form F C Ts))
    by (intros A; by apply template_argument_converts_function).
  apply length_1_singleton. exists (instantiate_form F C Ts).
  apply filter_singleton_split.
  exists (address_type C <$> ds1), (address_type C <$> ds2).
  rewrite Hl, fmap_app, fmap_cons, Hd. split_and!; [done..|].
  rewrite <-fmap_app, Forall_fmap. eapply Forall_impl; [exact Hall|].
  intros d' Hd' Heq. cbn in Heq. apply Hd'. by exists Ts.
Qed.

Lemma value_true_exact_signature_witness :
  (HAS_METHOD_FORM.value "Train" class_A TrainForm 8).2 = well_formed true ∧
  ∃ Ts, length Ts ≤ 7 ∧
    HAS_MEM_FUNC.value "Train" class_A (instantiate_form TrainForm class_A Ts)
    = well_formed true.
Proof.
  split; [reflexivity|].
  apply (value_true_exact_signature "Train" class_A TrainForm 8). reflexivity.
Defined.

(** ** Several declarations of the form *)

(** X4: two or more declarations of the probed name that all are of the form
    with the same number of additional arguments hide each other: deduction
    succeeds for more than one element of the overload set, no count from
    0 to 7 matches, and the search is false after probing 0 to 7. *)
Theorem same_count_overloads_not_detected (METHOD : string) (C : class_type)
    (F : method_form) (N depth : nat) :
  8 ≤ depth →
  2 ≤ length (lookup_member C METHOD) →
  Forall (of_form F C N) (lookup_member C METHOD) →
  (∀ k, k ≤ 7 →
        HAS_METHOD_FORM.WithNAdditionalArgs METHOD C F k = well_formed false) ∧
  HAS_METHOD_FORM.value METHOD C F depth = (seq 0 8, well_formed false).
Proof.
  intros Hd Hlen Hall.
  assert (∀ k, k ≤ 7 →
            HAS_METHOD_FORM.WithNAdditionalArgs METHOD C F k = well_formed false)
    as Hnone.
  { intros k _. apply WithNAdditionalArgs_false_iff.
    intros [_ (ds1 & d & ds2 & Hl & Hk & Hnot)]. rewrite Hl in Hall, Hlen.
    apply Forall_app in Hall as [H1 H2]. apply Forall_cons in H2 as [HdN H2].
    assert (k = N) as -> by (by eapply of_form_count_unique).
    apply Forall_app in Hnot as [Hn1 Hn2].
    destruct ds1 as [|d1 ds1].
    - destruct ds2 as [|d2 ds2]; [cbn in Hlen; lia|].
      apply Forall_cons in H2 as [? _]. by apply Forall_cons in Hn2 as [? _].
    - apply Forall_cons in H1 as [? _]. by apply Forall_cons in Hn1 as [? _]. }
  split; [done|]. by apply value_no_match.
Qed.

Lemma same_count_overloads_not_detected_witness :
  8 ≤ 8 ∧ 2 ≤ length (lookup_member class_D "f") ∧
  Forall (of_form (form_any_arguments t_void false) class_D 1) (lookup_member class_D "f") ∧
  HAS_METHOD_FORM.value "f" class_D (form_any_arguments t_void false) 8
  = (seq 0 8, well_formed false).
Proof.
  assert (8 ≤ 8) as H8 by lia.
  assert (2 ≤ length (lookup_member class_D "f")) as H2 by (vm_compute; lia).
  assert (Forall (of_form (form_any_arguments t_void false) class_D 1)
            (lookup_member class_D "f")) as Hall.
  { repeat constructor; [by exists [t_int]|by exists [t_double]]. }
  split_and!; [exact H8|exact H2|exact Hall|].
  apply (same_count_overloads_not_detected "f" class_D _ 1 8 H8 H2 Hall).
Defined.

(** ** Only the declarations of the probed name matter *)

Lemma address_type_class_name (C C' : class_type) (d : member_declaration) :
  class_name C = class_name C' → address_type C d = address_type C' d.
Proof. intros H. destruct d; cbn; by rewrite ?H. Qed.

Lemma of_form_class_name (F : method_form) (C C' : class_type) (N : nat)
    (d : member_declaration) :
  of_form F C N d ↔ of_form F C' N d.
Proof. by rewrite !of_form_method. Qed.

Lemma probe_call_count (METHOD : string) (C : class_type) (F : method_form) (N : nat) :
  probe_call_well_formed METHOD C F N ↔
  length (filter (λ d, is_Some (deduce F C N (address_type C d)))
            (lookup_member C METHOD)) = 1.
Proof.
  assert (∀ d, is_Some (deduce F C N (address_type C d)) ↔ of_form F C N d) as Hof.
  { intros d. rewrite <-not_eq_None_Some, deduce_None. split; [|auto].
    intros Hnn. destruct (deduce F C N (address_type C d)) as [Ts|] eqn:Hd.
    - apply deduce_Some in Hd as [??]. by exists Ts.
    - apply deduce_None in Hd. by destruct Hnn. }
  rewrite length_1_singleton. unfold probe_call_well_formed. split.
  - intros (ds1 & d & ds2 & Hl & Hd & Hall). exists d.
    apply filter_singleton_split. exists ds1, ds2.
    split_and!; [done|by apply Hof|].
    eapply Forall_impl; [exact Hall|]. intros d' Hd'. by rewrite Hof.
  - intros [d Hf]. apply filter_singleton_split in Hf as (ds1 & ds2 & Hl & Hd & Hall).
    exists ds1, d, ds2. split_and!; [done|by apply Hof|].
    eapply Forall_impl; [exact Hall|]. intros d' Hd'. by rewrite <-Hof.
Qed.

Lemma probe_call_Permutation (METHOD : string) (C C' : class_type)
    (F : method_form) (N : nat) :
  class_name C = class_name C' →
  lookup_member C METHOD ≡ₚ lookup_member C' METHOD →
  probe_call_well_formed METHOD C F N ↔ probe_call_well_formed METHOD C' F N.
Proof.
  intros Hn Hp. rewrite !probe_call_count.
  rewrite (filter_length_Permutation _ _ _ Hp).
  assert (∀ d, is_Some (deduce F C N (address_type C d)) ↔
               is_Some (deduce F C' N (address_type C' d))) as Hiff.
  { intros d. rewrite <-(address_type_class_name C C' d Hn).
    unfold deduce. by rewrite Hn. }
  by rewrite (list_filter_iff _ _ _ Hiff).
Qed.

Lemma WithNAdditionalArgs_Permutation (METHOD : string) (C C' : class_type)
    (F : method_form) (N : nat) :
  class_name C = class_name C' →
  lookup_member C METHOD ≡ₚ lookup_member C' METHOD →
  HAS_METHOD_FORM.WithNAdditionalArgs METHOD C F N =
  HAS_METHOD_FORM.WithNAdditionalArgs METHOD C' F N.
Proof.
  intros Hn Hp.
  pose proof (probe_call_Permutation METHOD C C' F N Hn Hp) as Hiff.
  destruct (WithNAdditionalArgs_cases METHOD C F N) as [H|H]; rewrite H; symmetry.
  - apply WithNAdditionalArgs_true_iff in H as [??].
    apply WithNAdditionalArgs_true_iff. by rewrite <-Hiff.
  - apply WithNAdditionalArgs_false_iff in H.
    apply WithNAdditionalArgs_false_iff. by rewrite <-Hiff.
Qed.

Lemma search_ext (METHOD : string) (C C' : class_type) (F : method_form) :
  (∀ N, HAS_METHOD_FORM.WithNAdditionalArgs METHOD C F N =
        HAS_METHOD_FORM.WithNAdditionalArgs METHOD C' F N) →
  ∀ depth N,
    HAS_METHOD_FORM.WithGreaterOrEqualNumberOfAdditionalArgs METHOD C F depth N =
    HAS_METHOD_FORM.WithGreaterOrEqualNumberOfAdditionalArgs METHOD C' F depth N.
Proof.
  intros Hext depth. induction depth as [|depth IH]; intros N; [done|].
  destruct (WithNAdditionalArgs_cases METHOD C F N) as [Hm|Hm];
    pose proof Hm as Hm'; rewrite Hext in Hm'.
  - by rewrite (search_match _ _ _ _ _ Hm), (search_match _ _ _ _ _ Hm').
  - destruct (decide (N < 7)) as [Hlt|Hge].
    + by rewrite (search_next _ _ _ _ _ Hm Hlt), (search_next _ _ _ _ _ Hm' Hlt), IH.
    + by rewrite (search_last _ _ _ _ _ Hm), (search_last _ _ _ _ _ Hm') by lia.
Qed.

Lemma lookup_member_Permutation (C C' : class_type) (name : string) :
  class_members C ≡ₚ class_members C' →
  lookup_member C name ≡ₚ lookup_member C' name.
Proof. intros Hp. unfold lookup_member. by rewrite Hp. Qed.

(** X5: the detectors of a method name depend on a class only through its
    name and its declarations of that method name, in whatever order: two
    classes of one name whose declarations of the name agree up to order get
    the same result and the same probed counts from [HAS_METHOD_FORM], and
    the same result from [HAS_MEM_FUNC].  Members of other names and the
    order of declaration never matter. *)
Theorem detectors_depend_on_declarations_of_name (METHOD : string)
    (C C' : class_type) (F : method_form) (sig : pointer_type) (depth : nat) :
  class_name C = class_name C' →
  lookup_member C METHOD ≡ₚ lookup_member C' METHOD →
  HAS_METHOD_FORM.value METHOD C F depth = HAS_METHOD_FORM.value METHOD C' F depth ∧
  HAS_MEM_FUNC.value METHOD C sig = HAS_MEM_FUNC.value METHOD C' sig.
Proof.
  intros Hn Hp. split.
  - unfold HAS_METHOD_FORM.value. apply search_ext. intros N.
    by apply WithNAdditionalArgs_Permutation.
  - rewrite !HAS_MEM_FUNC_value_eq. f_equal. apply bool_decide_ext.
    assert (address_type C <$> lookup_member C METHOD ≡ₚ
            address_type C' <$> lookup_member C' METHOD) as Hp'.
    { rewrite Hp.
      assert (address_type C <$> lookup_member C' METHOD =
              address_type C' <$> lookup_member C' METHOD) as ->; [|done].
      apply list_fmap_ext. intros ???. by apply address_type_class_name. }
    by rewrite (filter_length_Permutation _ _ _ Hp').
Qed.

Lemma detectors_depend_on_declarations_of_name_witness :
  class_name class_B = class_name class_B_reversed ∧
  lookup_member class_B "f" ≡ₚ lookup_member class_B_reversed "f" ∧
  HAS_METHOD_FORM.value "f" class_B (form_any_arguments t_void false) 8 =
  HAS_METHOD_FORM.value "f" class_B_reversed (form_any_arguments t_void false) 8.
Proof.
  assert (lookup_member class_B "f" ≡ₚ lookup_member class_B_reversed "f") as Hp
    by (apply lookup_member_Permutation; symmetry;
        exact (reverse_Permutation (class_members class_B))).
  split_and!; [reflexivity|exact Hp|].
  apply (detectors_depend_on_declarations_of_name "f" class_B class_B_reversed
           (form_any_arguments t_void false) (ptr_to_data_member "B" t_int) 8
           eq_refl Hp).
Defined.

(** ** Classes without two declarations of the form at one count *)

Lemma probe_call_unambiguous (METHOD : string) (C : class_type) (F : method_form) :
  (∀ N i j d d', lookup_member C METHOD !! i = Some d →
                 lookup_member C METHOD !! j = Some d' →
                 of_form F C N d → of_form F C N d' → i = j) →
  ∀ N, probe_call_well_formed METHOD C F N ↔
       ∃ d, d ∈ lookup_member C METHOD ∧ of_form F C N d.
Proof.
  intros Hun N. unfold probe_call_well_formed. split.
  - intros (ds1 & d & ds2 & -> & Hd & _). exists d. split; [|done].
    apply elem_of_app. right. by left.
  - intros (d & Hin & Hd). apply list_elem_of_lookup in Hin as [i Hi].
    destruct (list_elem_of_split_length _ _ _ Hi) as (ds1 & ds2 & Hl & ->).
    exists ds1, d, ds2. split_and!; [done..|].
    apply Forall_forall. intros d' Hin' Hd'. rewrite Hl in Hun, Hi.
    apply elem_of_app in Hin' as [Hin'|Hin']; apply list_elem_of_lookup in Hin' as [j Hj].
    + pose proof (lookup_lt_Some _ _ _ Hj) as Hlt.
      assert ((ds1 ++ d :: ds2) !! j = Some d') as Hj'
        by (by rewrite lookup_app_l).
      specialize (Hun N _ _ _ _ Hi Hj' Hd Hd'). lia.
    + assert ((ds1 ++ d :: ds2) !! (length ds1 + S j) = Some d') as Hj'.
      { rewrite lookup_app_r by lia.
        by replace (length ds1 + S j - length ds1) with (S j) by lia. }
      specialize (Hun N _ _ _ _ Hi Hj' Hd Hd'). lia.
Qed.

(** X6: for a class in which no two declarations of the probed name are of
    the form with the same number of additional arguments, the search is
    true exactly when the class declares a method of that name with the
    return type, the qualifier and the leading parameters of the form and at
    most 7 more parameters. *)
Theorem unambiguous_class_detected (METHOD : string) (C : class_type)
    (F : method_form) (depth : nat) :
  8 ≤ depth →
  (∀ N i j d d', lookup_member C METHOD !! i = Some d →
                 lookup_member C METHOD !! j = Some d' →
                 of_form F C N d → of_form F C N d' → i = j) →
  (HAS_METHOD_FORM.value METHOD C F depth).2 = well_formed true ↔
  ∃ Ts, length Ts ≤ 7 ∧
    Member METHOD
      (method (FunctionType (form_return F) (form_prefix F ++ Ts)) (form_const F))
    ∈ class_members C.
Proof.
  intros Hd Hun. rewrite (value_true_iff _ _ _ _ Hd).
  setoid_rewrite WithNAdditionalArgs_true_iff.
  setoid_rewrite (probe_call_unambiguous _ _ _ Hun). split.
  - intros (N & HN & _ & d & Hin & HdN).
    apply of_form_method in HdN as (Ts & <- & ->). exists Ts. split; [done|].
    by apply elem_of_lookup_member.
  - intros (Ts & HTs & Hin). exists (length Ts). split_and!; [done..|].
    eexists. split; [by apply elem_of_lookup_member|].
    apply of_form_method. by exists Ts.
Qed.

Lemma unambiguous_class_detected_witness :
  8 ≤ 8 ∧
  (HAS_METHOD_FORM.value "f" (class_two_overloads "A" "f" t_void false)
     (form_any_arguments t_void false) 8).2 = well_formed true.
Proof.
  assert (8 ≤ 8) as H8 by lia. split; [exact H8|].
  apply (unambiguous_class_detected "f" (class_two_overloads "A" "f" t_void false)
           (form_any_arguments t_void false) 8 H8).
  - intros N i j d d'. rewrite lookup_two_overloads. intros Hi Hj Hd Hd'.
    destruct i as [|[|i]], j as [|[|j]]; simplify_eq/=; try done;
      apply of_form_any_arguments in Hd; apply of_form_any_arguments in Hd';
      cbn in *; lia.
  - exists [t_int]. split; [cbn; lia|]. by left.
Defined.

(** ** Members that are not methods *)

(** X7: a static method or a data member is never found by
    [HAS_METHOD_FORM], whatever the form: its address is no pointer to a
    member function.  [HAS_MEM_FUNC] finds the member when it is asked for
    the type of that address; a data member of reference type has no
    address and is left out. *)
Theorem members_that_are_no_methods (METHOD : string) (C : class_type)
    (F : method_form) (d : member_declaration) (depth : nat) :
  8 ≤ depth →
  lookup_member C METHOD = [d] →
  (∀ f q, d ≠ method f q) →
  valid_signature (address_type C d) →
  HAS_METHOD_FORM.value METHOD C F depth = (seq 0 8, well_formed false) ∧
  HAS_MEM_FUNC.value METHOD C (address_type C d) = well_formed true.
Proof.
  intros Hd Hl Hno _. split.
  - apply value_no_match; [done|]. intros k _. apply WithNAdditionalArgs_false_iff.
    intros [_ Hp]. apply (probe_call_single _ _ _ _ _ Hl) in Hp.
    apply of_form_method in Hp as (Ts & _ & ->). by eapply Hno.
  - rewrite HAS_MEM_FUNC_value_eq, Hl, list_fmap_singleton.
    rewrite filter_cons, decide_True by apply template_argument_converts_refl.
    by rewrite filter_nil.
Qed.

Lemma members_that_are_no_methods_witness :
  8 ≤ 8 ∧ lookup_member class_S "f" = [static_method (FunctionType t_void [t_int])] ∧
  valid_signature (ptr_to_function (FunctionType t_void [t_int])) ∧
  HAS_METHOD_FORM.value "f" class_S (form_any_arguments t_void false) 8
    = (seq 0 8, well_formed false) ∧
  HAS_MEM_FUNC.value "f" class_S (ptr_to_function (FunctionType t_void [t_int]))
    = well_formed true ∧
  lookup_member class_S "x" = [data_member t_int] ∧
  valid_signature (ptr_to_data_member "S" t_int) ∧
  HAS_METHOD_FORM.value "x" class_S (form_any_arguments t_int false) 8
    = (seq 0 8, well_formed false) ∧
  HAS_MEM_FUNC.value "x" class_S (ptr_to_data_member "S" t_int) = well_formed true.
Proof.
  assert (8 ≤ 8) as H8 by lia.
  split_and!; [exact H8|reflexivity|exact I| | |reflexivity|exact I| | ].
  - apply (members_that_are_no_methods "f" class_S (form_any_arguments t_void false)
             (static_method (FunctionType t_void [t_int])) 8 H8 eq_refl);
      [discriminate|exact I].
  - apply (members_that_are_no_methods "f" class_S (form_any_arguments t_void false)
             (static_method (FunctionType t_void [t_int])) 8 H8 eq_refl);
      [discriminate|exact I].
  - apply (members_that_are_no_methods "x" class_S (form_any_arguments t_int false)
             (data_member t_int) 8 H8 eq_refl); [discriminate|exact I].
  - apply (members_that_are_no_methods "x" class_S (form_any_arguments t_int false)
             (data_member t_int) 8 H8 eq_refl); [discriminate|exact I].
Defined.

(** ** A const and a non-const overload *)





